(** * enyo/Selection: row selection state for lists

    A shallow embedding of the [enyo.Selection] kind and the properties of its
    single-select and multi-select behaviour.

    Scope of the model.
    - The keys that the calls store are row indices: JavaScript numbers of
      integer value, below 1e21 in size (where a number renders in plain
      decimal digits), as [Z].  A JavaScript object names its properties by
      strings; the decimal rendering of an integer is injective, and the
      comparisons [row < key], [row > key] and the subtraction [row - 1] of
      [remove] convert the property name back to the number it renders.  The
      own properties of [selected] are therefore a finite map from [Z].  The
      subtraction is the one of doubles: [js_round].  Storing under string
      keys, and numbers with a fraction, are outside the model; reading
      ([isSelected]) takes any number or string, and sees what a plain object
      inherits from [Object.prototype].
    - [lastSelected] is [undefined] until the first selection: [option Z].
    - The [sel] argument of [setByKey] is a boolean, as its callers pass it.
    - Payloads are JavaScript values; what the code observes of them is their
      truthiness ([data || true], [if (this.isSelected(key))],
      [!this.isSelected(key)]).
    - [doSelect], [doDeselect] and [doChange] hand an event to the owner.  The
      model records the events in the order they are fired; handlers that
      call back into the selection are outside the model. *)

From stdpp Require Import base option list gmap strings pretty.

Local Open Scope Z_scope.

(** ** JavaScript values *)

Inductive value :=
  | VUndefined
  | VNull
  | VBool (b : bool)
  | VNum (n : Z)
  | VNaN
  | VStr (s : string)
  | VObj (ref : nat).

#[global] Instance value_eq_dec : EqDecision value.
Proof. solve_decision. Defined.

(** ToBoolean. *)
Definition truthy (v : value) : bool :=
  match v with
  | VUndefined | VNull | VNaN => false
  | VBool b => b
  | VNum n => negb (n =? 0)
  | VStr s => match s with EmptyString => false | String _ _ => true end
  | VObj _ => true
  end.

(** [a || b] *)
Definition js_or (a b : value) : value := if truthy a then a else b.

(** ** Numbers and property names *)

(** The double nearest to an integer (ties to even), for numbers of integer
    value: every integer up to 2^53 in size is a double; above, 53 significant
    bits are kept. *)
Definition js_round (n : Z) : Z :=
  let m := Z.abs n in
  if m <=? 2 ^ 53 then n
  else
    let e := Z.log2 m - 52 in
    let q := m / 2 ^ e in
    let r := m mod 2 ^ e in
    let half := 2 ^ (e - 1) in
    let q' := if (half <? r) || ((r =? half) && Z.odd q) then q + 1 else q in
    Z.sgn n * (q' * 2 ^ e).

(** [Number.isSafeInteger] on a number of integer value. *)
Definition isSafeInteger (n : Z) : bool := Z.abs n <=? 2 ^ 53 - 1.

(** A key as a caller may pass it to a read: a number of integer value, or a
    string. *)
Inductive jskey :=
  | KNum (n : Z)
  | KStr (name : string).

Coercion KNum : Z >-> jskey.

(** The property names a plain object inherits from [Object.prototype]. *)
Definition object_prototype_names : list string :=
  [ "constructor"; "hasOwnProperty"; "isPrototypeOf"; "propertyIsEnumerable";
    "toLocaleString"; "toString"; "valueOf"; "__proto__";
    "__defineGetter__"; "__defineSetter__"; "__lookupGetter__";
    "__lookupSetter__" ].

(** What a plain object without own property [name] reads under it: the
    inherited member (an object, here numbered by its place in the list), or
    [undefined]. *)
Definition inherited (name : string) : value :=
  match list_find (λ n, bool_decide (n = name)) object_prototype_names with
  | Some (i, _) => VObj i
  | None => VUndefined
  end.

(** The own property of a map of row indices under a property name: the
    entry of the row that renders as [name]. *)
Definition own_named (name : string) (sel : gmap Z value) : option value :=
  snd <$> (snd <$> list_find (λ e, bool_decide (pretty e.1 = name)) (map_to_list sel)).

(** ** Events fired to the owner *)

Inductive event :=
  | onSelect (key : Z) (data : value)
  | onDeselect (key : Z) (data : value)
  | onChange.

#[global] Instance event_eq_dec : EqDecision event.
Proof. solve_decision. Defined.

(** * dom/accessibility: the accessibility properties of a control

    The mixin that [enyo.Control] receives when accessibility is switched on.
    A control is modelled by the fields the mixin reads and writes: [content],
    the four accessibility properties and the attribute hash.  Label, hint and
    content are strings, the alert and live flags booleans, as documented. *)

Module Accessibility.

Record control := Control {
  content : string;
  accessibilityLabel : string;
  accessibilityHint : string;
  accessibilityAlert : bool;
  accessibilityLive : bool;
  attributes : gmap string value
}.

Definition set_attributes (m : gmap string value) (c : control) : control :=
  {| content := content c;
     accessibilityLabel := accessibilityLabel c;
     accessibilityHint := accessibilityHint c;
     accessibilityAlert := accessibilityAlert c;
     accessibilityLive := accessibilityLive c;
     attributes := m |}.

Definition set_accessibilityLabel (l : string) (c : control) : control :=
  {| content := content c;
     accessibilityLabel := l;
     accessibilityHint := accessibilityHint c;
     accessibilityAlert := accessibilityAlert c;
     accessibilityLive := accessibilityLive c;
     attributes := attributes c |}.

Definition set_accessibilityHint (h : string) (c : control) : control :=
  {| content := content c;
     accessibilityLabel := accessibilityLabel c;
     accessibilityHint := h;
     accessibilityAlert := accessibilityAlert c;
     accessibilityLive := accessibilityLive c;
     attributes := attributes c |}.

Definition set_accessibilityAlert (b : bool) (c : control) : control :=
  {| content := content c;
     accessibilityLabel := accessibilityLabel c;
     accessibilityHint := accessibilityHint c;
     accessibilityAlert := b;
     accessibilityLive := accessibilityLive c;
     attributes := attributes c |}.

Definition set_accessibilityLive (b : bool) (c : control) : control :=
  {| content := content c;
     accessibilityLabel := accessibilityLabel c;
     accessibilityHint := accessibilityHint c;
     accessibilityAlert := accessibilityAlert c;
     accessibilityLive := b;
     attributes := attributes c |}.

(** Modelled from the spec: [setAttribute] belongs to the control kind, which
    is not part of the sources at hand; it is the primitive "set attribute
    (name, value-or-clear)".  [null] clears the attribute, any other value is
    stored under the name. *)
Definition setAttribute (name : string) (v : value) (c : control) : control :=
  set_attributes
    (match v with
     | VNull => delete name (attributes c)
     | _ => <[name := v]> (attributes c)
     end) c.

(** [this.accessibilityHint ? text + ' ' + this.accessibilityHint : text] *)
Definition hinted (text : string) (c : control) : string :=
  if truthy (VStr (accessibilityHint c))
  then text +:+ " " +:+ accessibilityHint c
  else text.

(** [accessibilityLabelChanged] *)
Definition accessibilityLabelChanged (c : control) : control :=
  if truthy (VStr (accessibilityLabel c)) then
    let c := setAttribute "tabindex" (VNum 0) c in
    setAttribute "aria-label" (VStr (hinted (accessibilityLabel c) c)) c
  else if truthy (VStr (content c)) then
    setAttribute "aria-label" (VStr (hinted (content c) c)) c
  else
    let c :=
      setAttribute "tabindex"
        (if truthy (VStr (accessibilityHint c)) then VNum 0 else VNull) c in
    setAttribute "aria-label"
      (if truthy (VStr (accessibilityHint c))
       then VStr (accessibilityHint c) else VNull) c.

(** [accessibilityHintChanged] *)
Definition accessibilityHintChanged (c : control) : control :=
  if truthy (VStr (accessibilityLabel c)) then
    setAttribute "aria-label" (VStr (hinted (accessibilityLabel c) c)) c
  else if truthy (VStr (content c)) then
    setAttribute "aria-label" (VStr (hinted (content c) c)) c
  else
    let c :=
      setAttribute "tabindex"
        (if truthy (VStr (accessibilityHint c)) then VNum 0 else VNull) c in
    setAttribute "aria-label"
      (if truthy (VStr (accessibilityHint c))
       then VStr (accessibilityHint c) else VNull) c.

(** [accessibilityAlertChanged] *)
Definition accessibilityAlertChanged (c : control) : control :=
  if accessibilityAlert c then setAttribute "role" (VStr "alert") c
  else setAttribute "role" VNull c.

(** [accessibilityLiveChanged] *)
Definition accessibilityLiveChanged (c : control) : control :=
  if accessibilityLive c then setAttribute "aria-live" (VStr "assertive") c
  else setAttribute "aria-live" VNull c.

(** [initAccessibility] *)
Definition initAccessibility (c : control) : control :=
  let c :=
    if truthy (VStr (accessibilityLabel c)) then accessibilityLabelChanged c
    else c in
  let c :=
    if truthy (VStr (accessibilityHint c)) then accessibilityHintChanged c
    else c in
  let c := if accessibilityAlert c then accessibilityAlertChanged c else c in
  if accessibilityLive c then accessibilityLiveChanged c else c.

(** [create]: the inherited [create], here [sup], then [initAccessibility]. *)
Definition create (sup : control → control) (c : control) : control :=
  initAccessibility (sup c).

(** [contentChanged]: the inherited hook, here [sup], then the label from the
    content unless an [accessibilityLabel] takes its place. *)
Definition contentChanged (sup : control → control) (c : control) : control :=
  let c := sup c in
  if truthy (VStr (content c)) && negb (truthy (VStr (accessibilityLabel c)))
  then
    let c := setAttribute "tabindex" (VNum 0) c in
    setAttribute "aria-label" (VStr (hinted (content c) c)) c
  else c.

(** The properties [notify] is called for. *)
Inductive property :=
  | PAccessibilityLabel
  | PAccessibilityHint
  | PAccessibilityAlert
  | PAccessibilityLive.

(** Modelled from the spec: [notify] belongs to the kind machinery, which is
    not part of the sources at hand; for a property with a changed-hook it
    calls that hook. *)
Definition notify (p : property) (c : control) : control :=
  match p with
  | PAccessibilityLabel => accessibilityLabelChanged c
  | PAccessibilityHint => accessibilityHintChanged c
  | PAccessibilityAlert => accessibilityAlertChanged c
  | PAccessibilityLive => accessibilityLiveChanged c
  end.

Definition getAccessibilityLabel (c : control) : string := accessibilityLabel c.

(** [setAccessibilityLabel]; [was != accessibilityLabel] on two strings. *)
Definition setAccessibilityLabel (l : string) (c : control) : control :=
  let was := accessibilityLabel c in
  let c := set_accessibilityLabel l c in
  if bool_decide (was ≠ l) then notify PAccessibilityLabel c else c.

Definition getAccessibilityHint (c : control) : string := accessibilityHint c.

(** [setAccessibilityHint] *)
Definition setAccessibilityHint (h : string) (c : control) : control :=
  let was := accessibilityHint c in
  let c := set_accessibilityHint h c in
  if bool_decide (was ≠ h) then notify PAccessibilityHint c else c.

Definition getAccessibilityAlert (c : control) : bool := accessibilityAlert c.

(** [setAccessibilityAlert]; [was != accessibilityAlert] on two booleans. *)
Definition setAccessibilityAlert (b : bool) (c : control) : control :=
  let was := accessibilityAlert c in
  let c := set_accessibilityAlert b c in
  if bool_decide (was ≠ b) then notify PAccessibilityAlert c else c.

Definition getAccessibilityLive (c : control) : bool := accessibilityLive c.

(** [setAccessibilityLive] *)
Definition setAccessibilityLive (b : bool) (c : control) : control :=
  let was := accessibilityLive c in
  let c := set_accessibilityLive b c in
  if bool_decide (was ≠ b) then notify PAccessibilityLive c else c.

(** A button with a role of its own and nothing else set. *)
Definition plain_button : control :=
  {| content := "OK";
     accessibilityLabel := EmptyString;
     accessibilityHint := EmptyString;
     accessibilityAlert := false;
     accessibilityLive := false;
     attributes := {[ "role" := VStr "button" ]} |}.

End Accessibility.

(** * enyo/Selection *)

Module Selection.

(** ** The instance *)

Record state := State {
  multi : bool;
  selected : gmap Z value;
  lastSelected : option Z
}.

Definition set_selected (m : gmap Z value) (s : state) : state :=
  {| multi := multi s; selected := m; lastSelected := lastSelected s |}.

Definition set_lastSelected (k : Z) (s : state) : state :=
  {| multi := multi s; selected := selected s; lastSelected := Some k |}.

Definition set_multi (b : bool) (s : state) : state :=
  {| multi := b; selected := selected s; lastSelected := lastSelected s |}.

(** A method mutates [this] and fires events. *)
Definition action := state → state * list event.

Definition skip : action := λ s, (s, []).

Definition fire (e : event) : action := λ s, (s, [e]).

Definition assign (f : state → state) : action := λ s, (f s, []).

Definition seq (a b : action) : action := λ s,
  let '(s1, t1) := a s in
  let '(s2, t2) := b s1 in
  (s2, t1 ++ t2).

Declare Scope action_scope.
Delimit Scope action_scope with act.
Bind Scope action_scope with action.
Notation "a ;; b" := (seq a%act b%act)
  (at level 100, b at level 200, right associativity) : action_scope.
Local Open Scope action_scope.

(** A method body that reads [this] first. *)
Definition reading (f : state → action) : action := λ s, f s s.

Definition doSelect (key : Z) (data : value) : action := fire (onSelect key data).
Definition doDeselect (key : Z) (data : value) : action := fire (onDeselect key data).
Definition doChange : action := fire onChange.

(** ** Methods *)

(** [clear]: [this.selected = {}]. *)
Definition clear : action := assign (set_selected ∅).

(** [isSelected]: [return this.selected[key]].  [selected] is a plain object:
    a row index reads its own entry or [undefined] ([Object.prototype] has no
    member under a number); a string reads the own entry of the row it
    renders, or else what the object inherits. *)
Definition isSelected (key : jskey) (s : state) : value :=
  match key with
  | KNum n => default VUndefined (selected s !! n)
  | KStr name => default (inherited name) (own_named name (selected s))
  end.

Arguments isSelected : simpl never.


(** [setByKey (key, sel, data)] *)
Definition setByKey (key : Z) (sel : bool) (data : value) : action :=
  (if sel then
     assign (λ s, set_selected (<[key := js_or data (VBool true)]> (selected s)) s) ;;
     assign (set_lastSelected key) ;;
     reading (λ s, doSelect key (isSelected key s))
   else
     reading (λ s,
       let was := isSelected key s in
       assign (λ s, set_selected (delete key (selected s)) s) ;;
       doDeselect key was)) ;;
  doChange.

(** [deselect (key)] *)
Definition deselect (key : Z) : action :=
  reading (λ s,
    if truthy (isSelected key s) then setByKey key false VUndefined else skip).

(** [this.deselect(this.lastSelected)].  While [lastSelected] is [undefined]
    the call reads the property named "undefined", which no row index
    renders, so the guard of [deselect] fails. *)
Definition deselect_lastSelected : action :=
  reading (λ s,
    match lastSelected s with
    | Some k => deselect k
    | None => skip
    end).

(** [highlander] *)
Definition highlander : action :=
  reading (λ s, if negb (multi s) then deselect_lastSelected else skip).

(** [multiChanged]: the hook that runs after [multi] has taken a new value. *)
Definition multiChanged : action :=
  reading (λ s, if negb (multi s) then clear else skip) ;;
  doChange.

(** [select (key, data)] *)
Definition select (key : Z) (data : value) : action :=
  reading (λ s,
    if multi s then
      setByKey key (negb (truthy (isSelected key s))) data
    else if negb (truthy (isSelected key s)) then
      highlander ;;
      setByKey key true data
    else skip).

(** [toggle (key, data)].  [this.lastSelected != key] is [true] when
    [lastSelected] is [undefined] and [key] is a number. *)
Definition toggle (key : Z) (data : value) : action :=
  reading (λ s,
    if negb (multi s) && negb (bool_decide (lastSelected s = Some key))
    then deselect_lastSelected else skip) ;;
  reading (λ s, setByKey key (negb (truthy (isSelected key s))) data).

(** [getSelected] *)
Definition getSelected (s : state) : gmap Z value := selected s.

(** One iteration of the [for (var row in this.selected)] loop of [remove]. *)
Definition remove_row (key : Z) (sel : gmap Z value)
    (newSelected : gmap Z value) (row : Z) : gmap Z value :=
  if row <? key then <[row := default VUndefined (sel !! row)]> newSelected
  else if row >? key then
    <[js_round (row - 1) := default VUndefined (sel !! row)]> newSelected
  else newSelected.

(** The loop over the enumerated property names [rows]. *)
Definition remove_rows (key : Z) (sel : gmap Z value) (rows : list Z) : gmap Z value :=
  foldl (remove_row key sel) ∅ rows.

(** The property names of an object, as [for ... in] enumerates them. *)
Definition rows_of (sel : gmap Z value) : list Z := (map_to_list sel).*1.

(** [remove (key)] *)
Definition remove (key : Z) : action :=
  assign (λ s, set_selected (remove_rows key (selected s) (rows_of (selected s))) s).

(** [create]: [this.clear()] on a fresh instance; [multi] is [false] unless
    the owner configures it. *)
Definition create (m : bool) : state :=
  (clear {| multi := m; selected := ∅; lastSelected := None |}).1.

(** Modelled from the spec: the accessor that the kind machinery generates for
    the published property [multi] is not part of the sources at hand.  It
    stores the new value and calls the changed-hook [multiChanged] when the
    value differs from the old one. *)
Definition setMulti (b : bool) : action :=
  reading (λ s,
    if bool_decide (multi s = b) then skip
    else (assign (set_multi b) ;; multiChanged)).

(** ** Calls from outside *)

Inductive op :=
  | Clear
  | SetByKey (key : Z) (sel : bool) (data : value)
  | Select (key : Z) (data : value)
  | Deselect (key : Z)
  | Toggle (key : Z) (data : value)
  | Remove (key : Z)
  | SetMulti (b : bool).

Definition run (o : op) : action :=
  match o with
  | Clear => clear
  | SetByKey key sel data => setByKey key sel data
  | Select key data => select key data
  | Deselect key => deselect key
  | Toggle key data => toggle key data
  | Remove key => remove key
  | SetMulti b => setMulti b
  end.

Definition run_all (os : list op) : action :=
  foldr (λ o a, run o ;; a) skip os.

Inductive reachable : state → Prop :=
  | reachable_create m : reachable (create m)
  | reachable_run s o : reachable s → reachable (run o s).1.

(** ** Invariants *)

(** Every stored payload is truthy. *)
Definition store_truthy (s : state) : Prop :=
  map_Forall (λ _ v, truthy v = true) (selected s).

#[global] Instance store_truthy_dec s : Decision (store_truthy s).
Proof. unfold store_truthy. apply _. Defined.

(** Single-select: at most one entry, filed under [lastSelected]. *)
Definition single_inv (s : state) : Prop :=
  multi s = false →
  (size (selected s) ≤ 1)%nat ∧
  map_Forall (λ k _, lastSelected s = Some k) (selected s).

#[global] Instance single_inv_dec s : Decision (single_inv s).
Proof. unfold single_inv. apply _. Defined.

(** The calls that go through the single-select bookkeeping: everything but
    the manual setter switching a row on, and [remove]. *)
Definition guarded (o : op) : bool :=
  match o with
  | SetByKey _ true _ | Remove _ => false
  | _ => true
  end.

(** The states that only guarded calls lead to. *)
Inductive reachable_guarded : state → Prop :=
  | reachable_guarded_create m : reachable_guarded (create m)
  | reachable_guarded_run s o :
      reachable_guarded s → guarded o = true → reachable_guarded (run o s).1.


(** ** Sample instances *)

(** The spec's example: the rows 1, 2 and 4 are selected. *)
Definition rows_1_2_4 : state :=
  {| multi := true;
     selected := {[ 1 := VBool true; 2 := VBool true; 4 := VBool true ]};
     lastSelected := Some 4 |}.

(** Multi-select, the one row 2^53 + 2 selected. *)
Definition row_large : state :=
  {| multi := true;
     selected := {[ 9007199254740994 := VBool true ]};
     lastSelected := Some 9007199254740994 |}.

(** Single-select, row 2 selected with payload "a". *)
Definition row_2_single : state :=
  {| multi := false; selected := {[ 2 := VStr "a" ]}; lastSelected := Some 2 |}.



(** ** Row indices that [remove] shifts exactly *)

(** Every selected row is a safe integer. *)
Definition rows_safe (sel : gmap Z value) : Prop :=
  map_Forall (λ row _, isSafeInteger row = true) sel.

#[global] Instance rows_safe_dec sel : Decision (rows_safe sel).
Proof. unfold rows_safe. apply _. Defined.

(** For every row above [key], the double [row - 1] is the integer. *)
Definition dec_exact (key : Z) (sel : gmap Z value) : Prop :=
  ∀ row, is_Some (sel !! row) → key < row → js_round (row - 1) = row - 1.

(** ** Reading the events of a call *)

(** Every select and deselect event is directly followed by a change. *)
Fixpoint change_follows (t : list event) : bool :=
  match t with
  | [] => true
  | onChange :: t' => change_follows t'
  | onSelect _ _ :: t' | onDeselect _ _ :: t' =>
      match t' with
      | onChange :: _ => change_follows t'
      | _ => false
      end
  end.

(** The payload an event hands to the owner is truthy. *)
Definition payload_truthy (e : event) : bool :=
  match e with
  | onSelect _ data | onDeselect _ data => truthy data
  | onChange => true
  end.

(** Some event of [t] is about row [k]. *)
Definition mentions (k : Z) (t : list event) : bool :=
  existsb (λ e,
    match e with
    | onSelect key _ | onDeselect key _ => bool_decide (key = k)
    | onChange => false
    end) t.

(** The row of the last select event of [t]. *)
Fixpoint last_onSelect (t : list event) : option Z :=
  match t with
  | [] => None
  | e :: t' =>
      match last_onSelect t' with
      | Some k => Some k
      | None => match e with onSelect key _ => Some key | _ => None end
      end
  end.

(** [clear], [remove] and a change of [multi] rewrite the selection without
    select or deselect events. *)
Definition silent (o : op) : bool :=
  match o with
  | Clear | Remove _ | SetMulti _ => true
  | _ => false
  end.

(** A call that acts on the instance through [setByKey] alone: the chain of
    [setByKey] calls it makes, from state to state, with the events fired on
    the way.  With [guard] set, the chain switches a row off only when the row
    is selected. *)
Inductive via_setByKey (guard : bool) : state → list event → state → Prop :=
  | via_nil s : via_setByKey guard s [] s
  | via_call (key : Z) sel data s t s' :
      (guard = true → sel = false → truthy (isSelected key s) = true) →
      via_setByKey guard (setByKey key sel data s).1 t s' →
      via_setByKey guard s ((setByKey key sel data s).2 ++ t) s'.

(** The manual setter may switch off a row that is not selected. *)
Definition guards_off (o : op) : bool :=
  match o with
  | SetByKey _ false _ => false
  | _ => true
  end.

(** ** What each method computes *)

Ltac unfold_action :=
  unfold seq, reading, assign, skip, doSelect, doDeselect, doChange, fire,
    set_selected, set_lastSelected, set_multi in *.

Lemma truthy_js_or a b : truthy b = true → truthy (js_or a b) = true.
Proof. unfold js_or. by destruct (truthy a) eqn:E. Qed.

Lemma isSelected_truthy_Some (key : Z) s :
  truthy (isSelected key s) = true → is_Some (selected s !! key).
Proof. unfold isSelected. by destruct (selected s !! key). Qed.

Lemma setByKey_on key data s :
  setByKey key true data s =
  ({| multi := multi s;
      selected := <[key := js_or data (VBool true)]> (selected s);
      lastSelected := Some key |},
   [onSelect key (js_or data (VBool true)); onChange]).
Proof.
  unfold setByKey, isSelected. unfold_action. simpl.
  by rewrite lookup_insert_eq.
Qed.

Lemma setByKey_off key data s :
  setByKey key false data s =
  ({| multi := multi s;
      selected := delete key (selected s);
      lastSelected := lastSelected s |},
   [onDeselect key (isSelected key s); onChange]).
Proof. reflexivity. Qed.


Lemma deselect_unselected (key : Z) s :
  truthy (isSelected key s) = false → deselect key s = (s, []).
Proof. unfold deselect, reading. by intros ->. Qed.


(** Multi-select: rows 1 and 3 selected with their payloads. *)
Lemma getSelected_two_rows :
  getSelected
    (run_all [Select 1 (VStr "a"); Select 3 (VStr "b")] (create true)).1
  = {[ 1 := VStr "a"; 3 := VStr "b" ]}.
Proof. reflexivity. Qed.

(** ** The loop of [remove] *)

Lemma js_round_exact n : - 2 ^ 53 ≤ n ≤ 2 ^ 53 → js_round n = n.
Proof.
  intros Hn. unfold js_round. cbv zeta.
  destruct (Z.leb_spec (Z.abs n) (2 ^ 53)); [done | lia].
Qed.

(** Ties go to the even significand: 2^53 + 1 rounds down, 2^53 + 3 up. *)
Lemma js_round_ties :
  js_round 9007199254740993 = 9007199254740992 ∧
  js_round 9007199254740995 = 9007199254740996 ∧
  js_round (-9007199254740993) = -9007199254740992 ∧
  js_round 9007199254740994 = 9007199254740994.
Proof. by vm_compute. Qed.

Lemma rows_safe_dec_exact key (m : gmap Z value) : rows_safe m → dec_exact key m.
Proof.
  intros Hm row [v Hv] _. apply Hm in Hv. unfold isSafeInteger in Hv.
  apply Z.leb_le in Hv. apply js_round_exact. lia.
Qed.

Lemma remove_row_lookup key sel acc row r :
  (key < row → js_round (row - 1) = row - 1) →
  remove_row key sel acc row !! r =
  if r <? key
  then (if decide (row = r) then Some (default VUndefined (sel !! r)) else acc !! r)
  else (if decide (row = r + 1) then Some (default VUndefined (sel !! (r + 1))) else acc !! r).
Proof.
  intros Hex. unfold remove_row.
  destruct (Z.ltb_spec row key) as [Hrow|Hrow].
  - rewrite lookup_insert. destruct (Z.ltb_spec r key) as [Hr|Hr].
    + by destruct (decide (row = r)) as [->|].
    + by rewrite !decide_False by lia.
  - destruct (Z.gtb_spec row key) as [Hgt|Hle].
    + rewrite Hex by lia. rewrite lookup_insert.
      destruct (Z.ltb_spec r key) as [Hr|Hr].
      * by rewrite !decide_False by lia.
      * destruct (decide (row = r + 1)) as [->|].
        -- by rewrite decide_True by lia.
        -- by rewrite decide_False by lia.
    + destruct (Z.ltb_spec r key); by rewrite decide_False by lia.
Qed.

Lemma foldl_remove_row_lookup key sel rows acc r :
  (∀ row, row ∈ rows → key < row → js_round (row - 1) = row - 1) →
  foldl (remove_row key sel) acc rows !! r =
  if r <? key
  then (if decide (r ∈ rows) then Some (default VUndefined (sel !! r)) else acc !! r)
  else (if decide (r + 1 ∈ rows) then Some (default VUndefined (sel !! (r + 1))) else acc !! r).
Proof.
  revert acc. induction rows as [|row rows IH]; intros acc Hex; cbn [foldl].
  - destruct (r <? key); case_decide as Hin; first [done | by apply elem_of_nil in Hin].
  - rewrite IH by (intros ???; apply Hex; [by right | done]).
    rewrite remove_row_lookup by (apply Hex; by left).
    assert (Hcons : ∀ (x : Z) (A : Type) (a b : A),
      (if decide (x ∈ rows) then a else if decide (row = x) then a else b)
      = if decide (x ∈ row :: rows) then a else b).
    { intros x A a b. destruct (decide (x ∈ rows)) as [Hin|Hin].
      - rewrite decide_True; [done | by right].
      - destruct (decide (row = x)) as [->|Hne].
        + rewrite decide_True; [done | by left].
        + rewrite decide_False; [done|]. by intros [->|?]%elem_of_cons. }
    destruct (r <? key); apply Hcons.
Qed.

(** Whatever the order (and multiplicity) in which the property names are
    enumerated, the loop builds the same object. *)
Lemma remove_rows_lookup key sel rows r :
  (∀ row, row ∈ rows ↔ is_Some (sel !! row)) →
  dec_exact key sel →
  remove_rows key sel rows !! r = if r <? key then sel !! r else sel !! (r + 1).
Proof.
  intros Hrows Hex. unfold remove_rows.
  rewrite foldl_remove_row_lookup
    by (intros row Hrow; apply Hex; by apply Hrows).
  destruct (r <? key); case_decide as Hin; rewrite Hrows in Hin.
  - by destruct Hin as [v ->].
  - rewrite lookup_empty. symmetry. by apply eq_None_not_Some.
  - by destruct Hin as [v ->].
  - rewrite lookup_empty. symmetry. by apply eq_None_not_Some.
Qed.

Lemma elem_of_rows_of sel row : row ∈ rows_of sel ↔ is_Some (sel !! row).
Proof.
  unfold rows_of. rewrite list_elem_of_fmap. split.
  - intros [[k v] [-> Hkv]]. apply elem_of_map_to_list in Hkv. by exists v.
  - intros [v Hv]. exists (row, v). split; [done|]. by apply elem_of_map_to_list.
Qed.

Lemma remove_lookup key s r :
  dec_exact key (selected s) →
  selected (remove key s).1 !! r =
  if r <? key then selected s !! r else selected s !! (r + 1).
Proof. intros Hex. simpl. by apply remove_rows_lookup; [apply elem_of_rows_of|]. Qed.

(** Whatever [remove] stores it has read from the entries at hand. *)
Lemma remove_rows_values key sel rows r v :
  remove_rows key sel rows !! r = Some v →
  ∃ row, row ∈ rows ∧ v = default VUndefined (sel !! row).
Proof.
  unfold remove_rows.
  assert (Hgen : ∀ acc,
    foldl (remove_row key sel) acc rows !! r = Some v →
    acc !! r = Some v ∨ ∃ row, row ∈ rows ∧ v = default VUndefined (sel !! row)).
  { induction rows as [|row rows IH]; intros acc; cbn [foldl]; [by left|].
    intros [Hacc | (row' & Hin & ->)]%IH.
    - unfold remove_row in Hacc.
      assert (Hins : ∀ i, <[i := default VUndefined (sel !! row)]> acc !! r = Some v →
        acc !! r = Some v ∨
        ∃ row0, row0 ∈ row :: rows ∧ v = default VUndefined (sel !! row0)).
      { intros i [[_ <-] | [_ ?]]%lookup_insert_Some; [right | by left].
        exists row. split; [by left | done]. }
      destruct (row <? key); [by apply Hins in Hacc|].
      destruct (row >? key); [by apply Hins in Hacc | by left].
    - right. exists row'. split; [by right | done]. }
  intros [Hacc | ?]%Hgen; [|done]. by rewrite lookup_empty in Hacc.
Qed.

(** ** Sequencing *)

Lemma seq_state (a b : action) s : ((a ;; b) s).1 = (b (a s).1).1.
Proof. unfold seq. destruct (a s) as [s1 t1]. simpl. by destruct (b s1). Qed.

Lemma seq_run (a b : action) s :
  (a ;; b) s = ((b (a s).1).1, (a s).2 ++ (b (a s).1).2).
Proof. unfold seq. destruct (a s) as [s1 t1]. simpl. by destruct (b s1). Qed.

(** ** [remove] *)

(** C3, amended.  [remove key] on a selection whose rows are safe integers
    (at most 2^53 - 1 in size, where [row - 1] is exact): a row below [key]
    keeps its entry; a row above [key] has its entry, payload included,
    re-stored under the row minus one; the new object holds nothing else, so
    the entry of [key] itself is dropped.  From {1:true, 2:true, 4:true},
    [remove 2] yields {1:true, 3:true}. *)
Theorem remove_compacts key s :
  rows_safe (selected s) →
  (∀ row, row < key → selected (remove key s).1 !! row = selected s !! row) ∧
  (∀ row, key < row → selected (remove key s).1 !! (row - 1) = selected s !! row) ∧
  (∀ r v, selected (remove key s).1 !! r = Some v →
     (r < key ∧ selected s !! r = Some v) ∨
     (key ≤ r ∧ selected s !! (r + 1) = Some v)) ∧
  selected (remove 2 rows_1_2_4).1 = {[ 1 := VBool true; 3 := VBool true ]}.
Proof.
  intros Hex%(rows_safe_dec_exact key).
  split; [|split; [|split]].
  - intros row Hrow. rewrite remove_lookup by done.
    by destruct (Z.ltb_spec row key); [|lia].
  - intros row Hrow. rewrite remove_lookup by done.
    destruct (Z.ltb_spec (row - 1) key); [lia|].
    by replace (row - 1 + 1) with row by lia.
  - intros r v. rewrite remove_lookup by done.
    destruct (Z.ltb_spec r key); intros Hv; [left | right]; by split.
  - reflexivity.
Qed.

Lemma remove_compacts_witness :
  selected (remove 2 rows_1_2_4).1 !! 1 = Some (VBool true) ∧
  selected (remove 2 rows_1_2_4).1 !! (4 - 1) = Some (VBool true).
Proof.
  assert (Hsafe : rows_safe (selected rows_1_2_4)).
  { apply (bool_decide_unpack _). vm_compute. reflexivity. }
  split.
  - rewrite (proj1 (remove_compacts 2 rows_1_2_4 Hsafe) 1); [reflexivity | lia].
  - rewrite (proj1 (proj2 (remove_compacts 2 rows_1_2_4 Hsafe)) 4);
      [reflexivity | lia].
Defined.

(** C3 as stated does not hold for every numeric row: 2^53 + 2 is a double,
    2^53 + 1 is not, so [row - 1] gives 2^53 and the entry of row 2^53 + 2 is
    re-stored two rows down. *)
Lemma remove_rounds_large_row :
  row_large = (run (Select 9007199254740994 VUndefined) (create true)).1 ∧
  selected row_large !! 9007199254740994 = Some (VBool true) ∧
  selected (remove 0 row_large).1 !! (9007199254740994 - 1) = None ∧
  selected (remove 0 row_large).1 !! 9007199254740992 = Some (VBool true) ∧
  ¬ (∀ key s row, key < row →
       selected (remove key s).1 !! (row - 1) = selected s !! row).
Proof.
  split; [reflexivity|]. split; [reflexivity|].
  assert (Hnone :
    selected (remove 0 row_large).1 !! (9007199254740994 - 1) = None)
    by (vm_compute; reflexivity).
  split; [done|]. split; [vm_compute; reflexivity|].
  intros Hclaim.
  specialize (Hclaim 0 row_large 9007199254740994 eq_refl).
  rewrite Hnone in Hclaim. discriminate Hclaim.
Qed.

(** C8. [remove] assigns [this.selected] and nothing else: [lastSelected] is
    what it was, whether below, at or above [key], [multi] is what it was, and
    no event is fired. *)
Theorem remove_frame key s :
  lastSelected (remove key s).1 = lastSelected s ∧
  multi (remove key s).1 = multi s ∧
  (remove key s).2 = [].
Proof. done. Qed.

(** ** [setByKey], [deselect] *)

(** C6. [setByKey key false data]: the entry of [key] is deleted, the other
    entries, [lastSelected] and [multi] stay, and the events are a deselect
    carrying [key] and the value read for [key] before the deletion
    ([undefined] when there was none), followed by a change. *)
Theorem setByKey_false key data s :
  selected (setByKey key false data s).1 = delete key (selected s) ∧
  lastSelected (setByKey key false data s).1 = lastSelected s ∧
  multi (setByKey key false data s).1 = multi s ∧
  (setByKey key false data s).2 =
    [onDeselect key (default VUndefined (selected s !! key)); onChange].
Proof. done. Qed.

(** C7. [deselect key] when [key] is not selected changes nothing and fires
    nothing. *)
Theorem deselect_unselected_noop (key : Z) s :
  truthy (isSelected key s) = false →
  deselect key s = (s, []).
Proof. apply deselect_unselected. Qed.

Lemma deselect_unselected_noop_witness :
  deselect 3 rows_1_2_4 = (rows_1_2_4, []).
Proof. apply deselect_unselected_noop. reflexivity. Defined.

(** ** [select] *)

Lemma select_single_selected (key : Z) data s :
  multi s = false →
  truthy (isSelected key s) = true →
  select key data s = (s, []).
Proof. unfold select, reading. by intros -> ->. Qed.

(** C10. Single-select, [key] already selected: [select key data] leaves the
    instance as it is, [data] is dropped, and no event is fired. *)
Theorem select_selected_single_noop (key : Z) data s :
  multi s = false →
  truthy (isSelected key s) = true →
  select key data s = (s, []).
Proof. apply select_single_selected. Qed.

Lemma select_selected_single_noop_witness :
  select 2 (VStr "b") row_2_single = (row_2_single, []).
Proof. apply select_selected_single_noop; reflexivity. Defined.

Lemma select_multi key data s :
  multi s = true →
  select key data s = setByKey key (negb (truthy (isSelected key s))) data s.
Proof. unfold select, reading. by intros ->. Qed.

Lemma select_single_unselected (key : Z) data s :
  multi s = false →
  truthy (isSelected key s) = false →
  select key data s = (highlander ;; setByKey key true data) s.
Proof. unfold select, reading. by intros -> ->. Qed.

Lemma isSelected_setByKey_on (key : Z) data s :
  isSelected key (setByKey key true data s).1 = js_or data (VBool true).
Proof. rewrite setByKey_on. unfold isSelected. simpl. by rewrite lookup_insert_eq. Qed.





(** ** [toggle] *)

Lemma toggle_multi key data s :
  multi s = true →
  toggle key data s = setByKey key (negb (truthy (isSelected key s))) data s.
Proof.
  intros Hm. unfold toggle, seq, reading. rewrite Hm. simpl. unfold skip.
  by destruct (setByKey _ _ _ _).
Qed.




(** ** Stored payloads are truthy *)

Lemma deselect_state key s :
  (deselect key s).1 =
  if truthy (isSelected key s) then set_selected (delete key (selected s)) s else s.
Proof. unfold deselect, reading. by destruct (truthy (isSelected key s)). Qed.

Lemma deselect_lastSelected_state s :
  (deselect_lastSelected s).1 =
  match lastSelected s with
  | Some k => (deselect k s).1
  | None => s
  end.
Proof. unfold deselect_lastSelected, reading. by destruct (lastSelected s). Qed.

Lemma store_truthy_setByKey key sel data s :
  store_truthy s → store_truthy (setByKey key sel data s).1.
Proof.
  unfold store_truthy. intros Hs. destruct sel.
  - rewrite setByKey_on. simpl. apply map_Forall_insert_2; [|done].
    by apply truthy_js_or.
  - simpl. by apply map_Forall_delete.
Qed.

Lemma store_truthy_deselect key s :
  store_truthy s → store_truthy (deselect key s).1.
Proof.
  intros Hs. rewrite deselect_state.
  destruct (truthy (isSelected key s)); [|done].
  by apply map_Forall_delete.
Qed.

Lemma store_truthy_deselect_lastSelected s :
  store_truthy s → store_truthy (deselect_lastSelected s).1.
Proof.
  intros Hs. rewrite deselect_lastSelected_state.
  destruct (lastSelected s); [|done]. by apply store_truthy_deselect.
Qed.

Lemma store_truthy_highlander s :
  store_truthy s → store_truthy (highlander s).1.
Proof.
  intros Hs. unfold highlander, reading.
  destruct (negb (multi s)); [|done]. by apply store_truthy_deselect_lastSelected.
Qed.

Lemma store_truthy_select key data s :
  store_truthy s → store_truthy (select key data s).1.
Proof.
  intros Hs. unfold select, reading. destruct (multi s).
  - by apply store_truthy_setByKey.
  - destruct (negb (truthy (isSelected key s))); [|done].
    rewrite seq_state. by apply store_truthy_setByKey, store_truthy_highlander.
Qed.

Lemma store_truthy_toggle key data s :
  store_truthy s → store_truthy (toggle key data s).1.
Proof.
  intros Hs. unfold toggle. rewrite seq_state. unfold reading at 1.
  apply store_truthy_setByKey. unfold reading.
  destruct (negb (multi s) && _); [|done].
  by apply store_truthy_deselect_lastSelected.
Qed.

Lemma store_truthy_remove key s :
  store_truthy s → store_truthy (remove key s).1.
Proof.
  intros Hs r v Hv. simpl in Hv.
  apply remove_rows_values in Hv as (row & Hin & ->).
  apply elem_of_rows_of in Hin as [x Hx]. rewrite Hx. simpl. by eapply Hs.
Qed.

Lemma store_truthy_multiChanged s :
  store_truthy s → store_truthy (multiChanged s).1.
Proof.
  intros Hs. unfold multiChanged. rewrite seq_state. simpl. unfold reading.
  destruct (negb (multi s)); [|done]. apply map_Forall_empty.
Qed.

Lemma store_truthy_setMulti b s :
  store_truthy s → store_truthy (setMulti b s).1.
Proof.
  intros Hs. unfold setMulti, reading. case_bool_decide; [done|].
  rewrite seq_state. by apply store_truthy_multiChanged.
Qed.

Lemma store_truthy_run o s :
  store_truthy s → store_truthy (run o s).1.
Proof.
  destruct o; simpl run.
  - intros _. apply map_Forall_empty.
  - apply store_truthy_setByKey.
  - apply store_truthy_select.
  - apply store_truthy_deselect.
  - apply store_truthy_toggle.
  - apply store_truthy_remove.
  - apply store_truthy_setMulti.
Qed.




(** A row index and its decimal rendering name the same entry. *)
Lemma own_named_pretty (n : Z) (sel : gmap Z value) :
  own_named (pretty n) sel = sel !! n.
Proof.
  unfold own_named.
  destruct (list_find _ (map_to_list sel)) as [[i [k v]]|] eqn:Hfind; simpl.
  - apply list_find_Some in Hfind as (Hi & Hk & _).
    apply bool_decide_unpack, (inj pretty) in Hk. simpl in Hk. subst k.
    symmetry. apply elem_of_map_to_list, list_elem_of_lookup. by exists i.
  - destruct (sel !! n) as [v|] eqn:Hn; [|done].
    apply elem_of_map_to_list in Hn.
    eapply list_find_None, Forall_forall in Hfind; [|exact Hn].
    exfalso. apply Hfind. by apply bool_decide_pack.
Qed.

Lemma isSelected_pretty (n : Z) s :
  is_Some (selected s !! n) →
  isSelected (KStr (pretty n)) s = isSelected n s.
Proof.
  intros [v Hv]. unfold isSelected. by rewrite own_named_pretty, Hv.
Qed.


(** ** Single-select bookkeeping *)

Lemma size_at_most_one (m : gmap Z value) (l : option Z) :
  (∀ k v, m !! k = Some v → l = Some k) → (size m ≤ 1)%nat.
Proof.
  intros Hm. destruct (map_choose_or_empty m) as [(k & v & Hkv) | ->].
  - assert (m = {[ k := v ]}) as ->.
    { apply map_eq. intros k'. destruct (decide (k' = k)) as [->|Hne].
      - by rewrite lookup_singleton_eq.
      - rewrite lookup_singleton_ne by done.
        destruct (m !! k') as [v'|] eqn:Hk'; [|done].
        apply Hm in Hkv, Hk'. congruence. }
    by rewrite map_size_singleton.
  - rewrite map_size_empty. lia.
Qed.

Lemma single_inv_filed s :
  single_inv s ↔
  (multi s = false → ∀ k v, selected s !! k = Some v → lastSelected s = Some k).
Proof.
  unfold single_inv. split.
  - intros Hs Hm k v Hkv. destruct (Hs Hm) as [_ Hall]. by eapply Hall.
  - intros Hs Hm. split; [|exact (Hs Hm)].
    eapply size_at_most_one, Hs, Hm.
  Qed.

Lemma multi_setByKey key sel data s : multi (setByKey key sel data s).1 = multi s.
Proof. destruct sel; [by rewrite setByKey_on | done]. Qed.

Lemma multi_deselect key s : multi (deselect key s).1 = multi s.
Proof. rewrite deselect_state. by destruct (truthy _). Qed.

Lemma multi_deselect_lastSelected s : multi (deselect_lastSelected s).1 = multi s.
Proof.
  rewrite deselect_lastSelected_state.
  destruct (lastSelected s); [apply multi_deselect | done].
Qed.

Lemma multi_highlander s : multi (highlander s).1 = multi s.
Proof.
  unfold highlander, reading.
  destruct (negb (multi s)); [apply multi_deselect_lastSelected | done].
Qed.

Lemma multi_select key data s : multi (select key data s).1 = multi s.
Proof.
  unfold select, reading. destruct (multi s) eqn:Hm.
  - by rewrite multi_setByKey.
  - destruct (negb _); [|done].
    by rewrite seq_state, multi_setByKey, multi_highlander.
Qed.

Lemma multi_toggle key data s : multi (toggle key data s).1 = multi s.
Proof.
  unfold toggle. rewrite seq_state. unfold reading at 1.
  rewrite multi_setByKey. unfold reading.
  destruct (negb (multi s) && _); [apply multi_deselect_lastSelected | done].
Qed.

(** In single-select, with truthy payloads and the bookkeeping intact,
    deselecting [lastSelected] leaves nothing selected. *)
Lemma deselect_lastSelected_empties s :
  multi s = false → store_truthy s → single_inv s →
  selected (deselect_lastSelected s).1 = ∅.
Proof.
  intros Hm Ht Hs. rewrite single_inv_filed in Hs. specialize (Hs Hm).
  apply map_eq. intros k. rewrite lookup_empty.
  rewrite deselect_lastSelected_state.
  destruct (lastSelected s) as [l|] eqn:Hl.
  - rewrite deselect_state.
    destruct (selected s !! k) as [v|] eqn:Hk.
    + assert (l = k) as -> by (apply Hs in Hk; congruence).
      unfold isSelected. rewrite Hk. simpl. rewrite (Ht k v Hk). simpl.
      apply lookup_delete_eq.
    + destruct (truthy (isSelected l s)); simpl; [|done].
      rewrite lookup_delete. by case_decide.
  - destruct (selected s !! k) as [v|] eqn:Hk; [|done].
    apply Hs in Hk. congruence.
Qed.

Lemma single_inv_setByKey_off key data s :
  single_inv s → single_inv (setByKey key false data s).1.
Proof.
  rewrite !single_inv_filed. simpl. intros Hs Hm k v.
  rewrite lookup_delete. case_decide; [done|]. by apply Hs.
Qed.

Lemma single_inv_setByKey_on_empty key data s :
  selected s = ∅ → single_inv (setByKey key true data s).1.
Proof.
  intros He. rewrite single_inv_filed, setByKey_on. simpl. rewrite He.
  intros _ k v. rewrite lookup_insert. case_decide; [by subst|].
  by rewrite lookup_empty.
Qed.

Lemma single_inv_deselect key s :
  single_inv s → single_inv (deselect key s).1.
Proof.
  intros Hs. unfold deselect, reading.
  destruct (truthy _); [by apply single_inv_setByKey_off | done].
Qed.

Lemma single_inv_multi s : multi s = true → single_inv s.
Proof. unfold single_inv. congruence. Qed.

Lemma single_inv_select key data s :
  store_truthy s → single_inv s → single_inv (select key data s).1.
Proof.
  intros Ht Hs. destruct (multi s) eqn:Hm.
  { apply single_inv_multi. by rewrite multi_select. }
  unfold select, reading. rewrite Hm.
  destruct (negb _); [|done]. rewrite seq_state.
  apply single_inv_setByKey_on_empty.
  unfold highlander, reading. rewrite Hm. simpl.
  by apply deselect_lastSelected_empties.
Qed.

Lemma single_inv_toggle key data s :
  store_truthy s → single_inv s → single_inv (toggle key data s).1.
Proof.
  intros Ht Hs. destruct (multi s) eqn:Hm.
  { apply single_inv_multi. by rewrite multi_toggle. }
  unfold toggle. rewrite seq_state. unfold reading. rewrite Hm. simpl.
  case_bool_decide as Hl; simpl.
  - destruct (negb _).
    + rewrite single_inv_filed, setByKey_on. simpl. intros _ k v.
      rewrite lookup_insert. case_decide; [by subst|].
      rewrite single_inv_filed in Hs. intros Hk. rewrite <- Hl. by eapply Hs.
    + by apply single_inv_setByKey_off.
  - set (s1 := (deselect_lastSelected s).1).
    assert (He : selected s1 = ∅) by by apply deselect_lastSelected_empties.
    try unfold isSelected at 1. rewrite He, lookup_empty. simpl.
    by apply single_inv_setByKey_on_empty.
Qed.

(** The changed-hook sets the bookkeeping right whatever it finds. *)
Lemma single_inv_multiChanged s : single_inv (multiChanged s).1.
Proof.
  unfold multiChanged. rewrite seq_state. simpl. unfold reading.
  destruct (multi s) eqn:Hm; simpl.
  - by apply single_inv_multi.
  - rewrite single_inv_filed. simpl. intros _ k v. by rewrite lookup_empty.
Qed.

Lemma single_inv_setMulti b s :
  single_inv s → single_inv (setMulti b s).1.
Proof.
  intros Hs. unfold setMulti, reading. case_bool_decide; [done|].
  rewrite seq_state. apply single_inv_multiChanged.
Qed.

Lemma single_inv_run o s :
  store_truthy s → single_inv s → guarded o = true → single_inv (run o s).1.
Proof.
  intros Ht Hs Hg.
  destruct o as [|key [|] data|key data|key|key data|key|b]; simpl in Hg; try done;
    simpl run.
  - rewrite single_inv_filed. simpl. intros _ k v. by rewrite lookup_empty.
  - by apply single_inv_setByKey_off.
  - by apply single_inv_select.
  - by apply single_inv_deselect.
  - by apply single_inv_toggle.
  - by apply single_inv_setMulti.
Qed.

(** X16.  Every state that guarded calls lead to from a fresh instance has its
    bookkeeping intact. *)
Lemma reachable_guarded_single_inv s :
  reachable_guarded s → single_inv s ∧ store_truthy s.
Proof.
  induction 1 as [m | s o _ [IHs IHt] Hg].
  - split; [|apply map_Forall_empty].
    apply single_inv_filed. simpl. intros _ k v. by rewrite lookup_empty.
  - split; [by apply single_inv_run | by apply store_truthy_run].
Qed.

Lemma reachable_guarded_single_inv_witness :
  single_inv (run (Toggle 4 VUndefined) (run (Select 2 VUndefined) (create false)).1).1 ∧
  store_truthy (run (Toggle 4 VUndefined) (run (Select 2 VUndefined) (create false)).1).1.
Proof.
  apply reachable_guarded_single_inv.
  apply reachable_guarded_run; [|reflexivity].
  apply reachable_guarded_run; [|reflexivity].
  apply reachable_guarded_create.
Defined.

(** C1, amended.  From a state whose payloads are truthy and whose
    single-select bookkeeping holds ([multi] false: at most one entry, filed
    under [lastSelected]), the bookkeeping holds again, and the payloads are
    truthy again, after [clear], [setByKey key false], [select], [deselect],
    [toggle] and a change of [multi].  [setByKey key true] is the manual
    setter: it stores the entry without deselecting another. *)
Theorem single_inv_preserved o s :
  store_truthy s → single_inv s → guarded o = true →
  single_inv (run o s).1 ∧ store_truthy (run o s).1.
Proof.
  intros Ht Hs Hg. split; [by apply single_inv_run | by apply store_truthy_run].
Qed.

Lemma single_inv_preserved_witness :
  single_inv (run (Select 5 VUndefined) row_2_single).1 ∧
  store_truthy (run (Select 5 VUndefined) row_2_single).1.
Proof.
  apply single_inv_preserved.
  - apply (bool_decide_unpack _). vm_compute. reflexivity.
  - apply (bool_decide_unpack _). vm_compute. reflexivity.
  - reflexivity.
Defined.

(** C1 as stated does not hold for [setByKey]: in single-select with row 2
    selected, [setByKey 5 true] adds row 5 and keeps row 2. *)
Lemma setByKey_on_keeps_other_rows :
  row_2_single = (run (Select 2 (VStr "a")) (create false)).1 ∧
  single_inv row_2_single ∧
  multi (run (SetByKey 5 true VUndefined) row_2_single).1 = false ∧
  selected (run (SetByKey 5 true VUndefined) row_2_single).1
    = {[ 2 := VStr "a"; 5 := VBool true ]} ∧
  ¬ single_inv (run (SetByKey 5 true VUndefined) row_2_single).1 ∧
  ¬ (∀ o s, reachable s → single_inv s → single_inv (run o s).1).
Proof.
  assert (Hinv : single_inv row_2_single).
  { apply (bool_decide_unpack _). vm_compute. reflexivity. }
  assert (Hbroken : ¬ single_inv (run (SetByKey 5 true VUndefined) row_2_single).1).
  { apply (bool_decide_eq_false_1 _). vm_compute. reflexivity. }
  split; [reflexivity|]. split; [done|].
  split; [reflexivity|]. split; [reflexivity|]. split; [done|].
  intros Hclaim. apply Hbroken, Hclaim; [|done].
  apply (reachable_run (create false) (Select 2 (VStr "a"))), reachable_create.
Qed.

(** [remove] renumbers the entries and not [lastSelected]: the one entry left
    may no longer be filed under it. *)
Lemma remove_unfiles_lastSelected :
  single_inv (run (Select 3 VUndefined) (create false)).1 ∧
  selected (run_all [Select 3 VUndefined; Remove 1] (create false)).1
    = {[ 2 := VBool true ]} ∧
  lastSelected (run_all [Select 3 VUndefined; Remove 1] (create false)).1 = Some 3 ∧
  ¬ single_inv (run_all [Select 3 VUndefined; Remove 1] (create false)).1.
Proof.
  split.
  { apply (bool_decide_unpack _). vm_compute. reflexivity. }
  split; [reflexivity|]. split; [reflexivity|].
  apply (bool_decide_eq_false_1 _). vm_compute. reflexivity.
Qed.

(** ** Selecting one row after another in single-select *)

Lemma single_inv_selected_last (key : Z) s :
  multi s = false → single_inv s →
  truthy (isSelected key s) = true → lastSelected s = Some key.
Proof.
  intros Hm Hs [v Hv]%isSelected_truthy_Some.
  rewrite single_inv_filed in Hs. by eapply Hs.
Qed.








(** ** [select] and [toggle] side by side *)

Lemma isSelected_deselect_falsy (k l : Z) s :
  truthy (isSelected k s) = false →
  truthy (isSelected k (deselect l s).1) = false.
Proof.
  intros Hk. rewrite deselect_state. destruct (truthy (isSelected l s)); [|done].
  unfold isSelected in *. simpl. rewrite lookup_delete. by case_decide.
Qed.

Lemma isSelected_deselect_lastSelected_falsy (k : Z) s :
  truthy (isSelected k s) = false →
  truthy (isSelected k (deselect_lastSelected s).1) = false.
Proof.
  intros Hk. rewrite deselect_lastSelected_state.
  destruct (lastSelected s); [by apply isSelected_deselect_falsy | done].
Qed.

(** X1.  [toggle] and [select] differ in one case only, the selected row of a
    single-select instance ([toggle] deselects it, [select] leaves it): in
    multi-select, and on a row that is not selected, the two calls give the
    same instance and fire the same events. *)
Theorem toggle_select_agree (key : Z) data s :
  multi s = true ∨ truthy (isSelected key s) = false →
  toggle key data s = select key data s.
Proof.
  destruct (multi s) eqn:Hm.
  { intros _. by rewrite toggle_multi, select_multi. }
  intros [?|Hsel]; [done|].
  assert (Hh : highlander s = deselect_lastSelected s).
  { unfold highlander, reading. by rewrite Hm. }
  assert (Hfirst :
    reading (λ s0,
      if negb (multi s0) && negb (bool_decide (lastSelected s0 = Some key))
      then deselect_lastSelected else skip) s = deselect_lastSelected s).
  { unfold reading at 1. rewrite Hm. simpl. case_bool_decide as Hl; simpl; [|done].
    unfold skip, deselect_lastSelected, reading. rewrite Hl.
    by rewrite deselect_unselected. }
  rewrite select_single_unselected, seq_run, Hh by done.
  unfold toggle. rewrite seq_run, Hfirst. unfold reading.
  by rewrite (isSelected_deselect_lastSelected_falsy key s Hsel).
Qed.

Lemma toggle_select_agree_witness :
  toggle 5 (VStr "b") row_2_single = select 5 (VStr "b") row_2_single.
Proof. apply toggle_select_agree. right. reflexivity. Defined.

Lemma single_inv_delete_selected (key : Z) s :
  multi s = false → single_inv s → truthy (isSelected key s) = true →
  delete key (selected s) = ∅.
Proof.
  intros Hm Hs Hsel. apply map_eq. intros k. rewrite lookup_empty, lookup_delete.
  case_decide; [done|].
  destruct (selected s !! k) as [v|] eqn:Hk; [|done].
  rewrite single_inv_filed in Hs. apply (Hs Hm) in Hk.
  apply (single_inv_selected_last key s Hm) in Hsel; [|by apply single_inv_filed].
  congruence.
Qed.

(** X2.  Single-select with the bookkeeping intact: [toggle] on the selected row
    deselects it, fires deselect (with the stored payload) and change, and
    leaves nothing selected. *)
Theorem toggle_selected_single (key : Z) data s :
  multi s = false → single_inv s → truthy (isSelected key s) = true →
  toggle key data s =
  ({| multi := false; selected := ∅; lastSelected := Some key |},
   [onDeselect key (isSelected key s); onChange]).
Proof.
  intros Hm Hs Hsel.
  pose proof (single_inv_selected_last key s Hm Hs Hsel) as Hl.
  assert (Hfirst :
    reading (λ s0,
      if negb (multi s0) && negb (bool_decide (lastSelected s0 = Some key))
      then deselect_lastSelected else skip) s = (s, [])).
  { unfold reading. by rewrite Hm, bool_decide_eq_true_2. }
  unfold toggle. rewrite seq_run, Hfirst. unfold reading. simpl fst.
  rewrite Hsel. simpl negb. rewrite setByKey_off. simpl.
  by rewrite Hm, Hl, single_inv_delete_selected.
Qed.

Lemma toggle_selected_single_witness :
  toggle 2 VUndefined row_2_single =
  ({| multi := false; selected := ∅; lastSelected := Some 2 |},
   [onDeselect 2 (isSelected 2 row_2_single); onChange]).
Proof.
  apply toggle_selected_single.
  - reflexivity.
  - apply (bool_decide_unpack _). vm_compute. reflexivity.
  - reflexivity.
Defined.

(** ** [clear] and the next selection *)



(** ** Selecting and deselecting again *)







(** ** Selections in multi-select *)

Lemma selected_select_multi key data s :
  multi s = true →
  selected (select key data s).1 =
  if truthy (isSelected key s) then delete key (selected s)
  else <[key := js_or data (VBool true)]> (selected s).
Proof.
  intros Hm. rewrite select_multi by done.
  destruct (truthy (isSelected key s)); simpl negb; [done|].
  by rewrite setByKey_on.
Qed.

Lemma isSelected_select_multi_ne (k : Z) key data s :
  multi s = true → k ≠ key →
  isSelected k (select key data s).1 = isSelected k s.
Proof.
  intros Hm Hk. unfold isSelected. rewrite selected_select_multi by done.
  destruct (truthy _).
  - by rewrite lookup_delete_ne.
  - by rewrite lookup_insert_ne.
Qed.

(** X6.  Multi-select: [select] on one row leaves the entries of the other rows
    alone, so two [select]s of different rows give the same selection in
    either order, whatever was selected before. *)
Theorem multi_selects_commute k1 k2 d1 d2 s :
  multi s = true → k1 ≠ k2 →
  selected (select k2 d2 (select k1 d1 s).1).1
  = selected (select k1 d1 (select k2 d2 s).1).1.
Proof.
  intros Hm Hne.
  rewrite !selected_select_multi by (by rewrite ?multi_select).
  rewrite !isSelected_select_multi_ne by done.
  destruct (truthy (isSelected k1 s)), (truthy (isSelected k2 s)).
  - apply delete_delete.
  - by rewrite delete_insert_ne.
  - by rewrite delete_insert_ne.
  - by apply insert_insert_ne.
Qed.

Lemma multi_selects_commute_witness :
  selected (select 4 VNull (select 3 (VStr "c") rows_1_2_4).1).1
  = selected (select 3 (VStr "c") (select 4 VNull rows_1_2_4).1).1.
Proof. apply multi_selects_commute; [reflexivity | lia]. Defined.

(** X7.  Multi-select: two rows that are not selected, selected one after the
    other, are both selected afterwards, each with its own payload, and the
    events are select, change, select, change: no deselect. *)
Theorem multi_select_both (k1 : Z) (k2 : Z) d1 d2 s :
  multi s = true → k1 ≠ k2 →
  truthy (isSelected k1 s) = false → truthy (isSelected k2 s) = false →
  isSelected k1 (select k2 d2 (select k1 d1 s).1).1 = js_or d1 (VBool true) ∧
  isSelected k2 (select k2 d2 (select k1 d1 s).1).1 = js_or d2 (VBool true) ∧
  (select k1 d1 s).2 ++ (select k2 d2 (select k1 d1 s).1).2 =
    [onSelect k1 (js_or d1 (VBool true)); onChange;
     onSelect k2 (js_or d2 (VBool true)); onChange].
Proof.
  intros Hm Hne H1 H2.
  assert (Hm1 : multi (select k1 d1 s).1 = true) by by rewrite multi_select.
  assert (H2' : truthy (isSelected k2 (select k1 d1 s).1) = false)
    by by rewrite isSelected_select_multi_ne.
  split; [|split].
  - rewrite isSelected_select_multi_ne by done.
    rewrite select_multi, H1 by done. apply isSelected_setByKey_on.
  - rewrite (select_multi k2), H2' by done. apply isSelected_setByKey_on.
  - rewrite (select_multi k2), H2' by done.
    rewrite (select_multi k1), H1 by done. simpl negb.
    by rewrite !setByKey_on.
Qed.

Lemma multi_select_both_witness :
  isSelected 1 (select 3 (VStr "b") (select 1 (VStr "a") (create true)).1).1
    = js_or (VStr "a") (VBool true) ∧
  isSelected 3 (select 3 (VStr "b") (select 1 (VStr "a") (create true)).1).1
    = js_or (VStr "b") (VBool true) ∧
  (select 1 (VStr "a") (create true)).2 ++
  (select 3 (VStr "b") (select 1 (VStr "a") (create true)).1).2 =
    [onSelect 1 (js_or (VStr "a") (VBool true)); onChange;
     onSelect 3 (js_or (VStr "b") (VBool true)); onChange].
Proof. apply multi_select_both; [reflexivity | lia | reflexivity | reflexivity]. Defined.

(** ** Calls that act through [setByKey] *)

Lemma via_weaken s t s' : via_setByKey true s t s' → via_setByKey false s t s'.
Proof.
  induction 1 as [s | key sel data s t s' _ _ IH]; [constructor|].
  by apply via_call.
Qed.

Lemma via_app guard s t1 s1 t2 s2 :
  via_setByKey guard s t1 s1 → via_setByKey guard s1 t2 s2 →
  via_setByKey guard s (t1 ++ t2) s2.
Proof.
  induction 1 as [s | key sel data s t s' Hg _ IH]; intros H2; [done|].
  rewrite <- app_assoc. apply via_call; [done|]. by apply IH.
Qed.

Lemma via_one guard (key : Z) sel data s :
  (guard = true → sel = false → truthy (isSelected key s) = true) →
  via_setByKey guard s (setByKey key sel data s).2 (setByKey key sel data s).1.
Proof.
  intros Hg. rewrite <- (app_nil_r (setByKey key sel data s).2).
  apply via_call; [done | constructor].
Qed.

Lemma via_seq guard (a b : action) s :
  via_setByKey guard s (a s).2 (a s).1 →
  via_setByKey guard (a s).1 (b (a s).1).2 (b (a s).1).1 →
  via_setByKey guard s ((a ;; b) s).2 ((a ;; b) s).1.
Proof. rewrite seq_run. simpl. apply via_app. Qed.

Lemma via_deselect key s :
  via_setByKey true s (deselect key s).2 (deselect key s).1.
Proof.
  unfold deselect, reading. destruct (truthy (isSelected key s)) eqn:Hsel.
  - by apply via_one.
  - constructor.
Qed.

Lemma via_deselect_lastSelected s :
  via_setByKey true s (deselect_lastSelected s).2 (deselect_lastSelected s).1.
Proof.
  unfold deselect_lastSelected, reading.
  destruct (lastSelected s); [apply via_deselect | constructor].
Qed.

Lemma via_highlander s :
  via_setByKey true s (highlander s).2 (highlander s).1.
Proof.
  unfold highlander, reading.
  destruct (negb (multi s)); [apply via_deselect_lastSelected | constructor].
Qed.

Lemma via_flip key data s :
  via_setByKey true s
    (setByKey key (negb (truthy (isSelected key s))) data s).2
    (setByKey key (negb (truthy (isSelected key s))) data s).1.
Proof. apply via_one. intros _. by destruct (truthy (isSelected key s)). Qed.

Lemma via_select key data s :
  via_setByKey true s (select key data s).2 (select key data s).1.
Proof.
  unfold select, reading. destruct (multi s); [apply via_flip|].
  destruct (negb (truthy (isSelected key s))); [|constructor].
  apply via_seq; [apply via_highlander | by apply via_one].
Qed.

Lemma via_toggle key data s :
  via_setByKey true s (toggle key data s).2 (toggle key data s).1.
Proof.
  unfold toggle. apply via_seq.
  - unfold reading. destruct (negb (multi s) && _);
      [apply via_deselect_lastSelected | constructor].
  - unfold reading at 1 3. apply via_flip.
Qed.

Lemma via_run o s :
  silent o = false →
  via_setByKey (guards_off o) s (run o s).2 (run o s).1.
Proof.
  destruct o as [|key sel data|key data|key|key data|key|b]; try done; intros _;
    simpl run.
  - destruct sel; by apply via_one.
  - apply via_select.
  - apply via_deselect.
  - apply via_toggle.
Qed.

(** ** The events of a call *)

Lemma change_follows_app t1 t2 :
  change_follows t1 = true → change_follows t2 = true →
  change_follows (t1 ++ t2) = true.
Proof.
  intros H1 H2. induction t1 as [|e t1 IH]; [done|].
  destruct e; simpl in *.
  - destruct t1 as [|[] t1]; try done. by apply IH.
  - destruct t1 as [|[] t1]; try done. by apply IH.
  - by apply IH.
Qed.

Lemma change_follows_via guard s t s' :
  via_setByKey guard s t s' → change_follows t = true.
Proof.
  induction 1 as [s | key sel data s t s' _ _ IH]; [done|].
  apply change_follows_app; [|done].
  destruct sel; [by rewrite setByKey_on | done].
Qed.

Lemma events_silent o s :
  silent o = true → (run o s).2 = [] ∨ (run o s).2 = [onChange].
Proof.
  destruct o as [|key sel data|key data|key|key data|key|b]; try done; intros _;
    simpl run; [by left | by left |].
  unfold setMulti, reading. case_bool_decide; [by left|]. right.
  rewrite seq_run. simpl. unfold multiChanged. rewrite seq_run. simpl.
  unfold reading. simpl. by destruct b.
Qed.

(** X8.  Whatever the call and the state, every select and every deselect event
    is directly followed by a change event. *)
Theorem change_follows_run o s : change_follows (run o s).2 = true.
Proof.
  destruct (silent o) eqn:Ho.
  - by destruct (events_silent o s Ho) as [-> | ->].
  - eapply change_follows_via, via_run, Ho.
Qed.

Lemma payload_truthy_via s t s' :
  via_setByKey true s t s' → forallb payload_truthy t = true.
Proof.
  induction 1 as [s | key sel data s t s' Hg _ IH]; [done|].
  rewrite forallb_app, IH, andb_true_r. destruct sel.
  - rewrite setByKey_on. simpl. by rewrite truthy_js_or.
  - simpl. by rewrite Hg.
Qed.

(** X9.  Every payload handed to the owner is truthy, the one exception being the
    manual [setByKey key false] on a row that is not selected, whose deselect
    event carries [undefined]. *)
Theorem payload_truthy_run o s :
  guards_off o = true → forallb payload_truthy (run o s).2 = true.
Proof.
  intros Hg. destruct (silent o) eqn:Ho.
  - by destruct (events_silent o s Ho) as [-> | ->].
  - apply (payload_truthy_via s _ (run o s).1). rewrite <- Hg. by apply via_run.
Qed.

Lemma payload_truthy_run_witness :
  forallb payload_truthy (run (Toggle 2 VNull) row_2_single).2 = true.
Proof. apply payload_truthy_run. reflexivity. Defined.

Lemma mentions_app k t1 t2 : mentions k (t1 ++ t2) = mentions k t1 || mentions k t2.
Proof. apply existsb_app. Qed.

Lemma mentions_setByKey k key sel data s :
  mentions k (setByKey key sel data s).2 = bool_decide (key = k).
Proof.
  destruct sel; [rewrite setByKey_on|]; simpl; by rewrite !orb_false_r.
Qed.

Lemma lookup_setByKey_ne k key sel data s :
  key ≠ k → selected (setByKey key sel data s).1 !! k = selected s !! k.
Proof.
  intros Hk. destruct sel; [rewrite setByKey_on|]; simpl.
  - by rewrite lookup_insert_ne.
  - by rewrite lookup_delete_ne.
Qed.

Lemma unmentioned_via guard k s t s' :
  via_setByKey guard s t s' → mentions k t = false →
  selected s' !! k = selected s !! k.
Proof.
  induction 1 as [s | key sel data s t s' _ _ IH]; [done|].
  rewrite mentions_app, mentions_setByKey. intros [Hk Ht]%orb_false_elim.
  apply bool_decide_eq_false in Hk.
  rewrite IH by done. by apply lookup_setByKey_ne.
Qed.

(** X10.  [setByKey], [select], [deselect] and [toggle] never change an entry
    silently: a row that no select or deselect event of the call names has
    the entry it had before. *)
Theorem unmentioned_row_unchanged o k s :
  silent o = false → mentions k (run o s).2 = false →
  selected (run o s).1 !! k = selected s !! k.
Proof.
  intros Ho. eapply unmentioned_via, via_run, Ho.
Qed.

Lemma unmentioned_row_unchanged_witness :
  selected (run (Select 5 VUndefined) row_2_single).1 !! 7
  = selected row_2_single !! 7.
Proof. apply unmentioned_row_unchanged; reflexivity. Defined.

Lemma last_onSelect_app t1 t2 :
  last_onSelect (t1 ++ t2) =
  match last_onSelect t2 with
  | Some k => Some k
  | None => last_onSelect t1
  end.
Proof.
  induction t1 as [|e t1 IH]; simpl.
  - by destruct (last_onSelect t2).
  - rewrite IH. by destruct (last_onSelect t2).
Qed.

Lemma lastSelected_via guard s t s' :
  via_setByKey guard s t s' →
  lastSelected s' =
  match last_onSelect t with
  | Some k => Some k
  | None => lastSelected s
  end.
Proof.
  induction 1 as [s | key sel data s t s' _ _ IH]; [done|].
  rewrite last_onSelect_app, IH. destruct (last_onSelect t); [done|].
  destruct sel; [by rewrite setByKey_on | done].
Qed.

Lemma lastSelected_silent o s :
  silent o = true → lastSelected (run o s).1 = lastSelected s.
Proof.
  destruct o as [|key sel data|key data|key|key data|key|b]; try done; intros _.
  simpl run. unfold setMulti, reading. case_bool_decide; [done|].
  rewrite seq_state. unfold multiChanged. rewrite seq_state. simpl.
  unfold reading. simpl. by destruct b.
Qed.

(** X11.  [lastSelected] follows the select events: after any call it is the row
    of the last select event the call fired, and it is what it was when the
    call fired none.  No call sets it back to [undefined]. *)
Theorem lastSelected_tracks_events o s :
  lastSelected (run o s).1 =
  match last_onSelect (run o s).2 with
  | Some k => Some k
  | None => lastSelected s
  end.
Proof.
  destruct (silent o) eqn:Ho.
  - rewrite lastSelected_silent by done.
    by destruct (events_silent o s Ho) as [-> | ->].
  - eapply lastSelected_via, via_run, Ho.
Qed.

(** ** A selection has a row on record *)

Lemma recorded_via guard s t s' :
  via_setByKey guard s t s' →
  (lastSelected s = None → selected s = ∅) →
  lastSelected s' = None → selected s' = ∅.
Proof.
  induction 1 as [s | key sel data s t s' _ _ IH]; [done|].
  intros Hs. apply IH. destruct sel.
  - by rewrite setByKey_on.
  - simpl. intros Hl. by rewrite (Hs Hl), delete_empty.
Qed.

Lemma remove_rows_of_lookup key (m : gmap Z value) r :
  dec_exact key m →
  remove_rows key m (rows_of m) !! r = if r <? key then m !! r else m !! (r + 1).
Proof. intros Hex. by apply remove_rows_lookup; [apply elem_of_rows_of|]. Qed.

Lemma remove_rows_of_empty key : remove_rows key ∅ (rows_of ∅) = ∅.
Proof. unfold rows_of. by rewrite map_to_list_empty. Qed.

Lemma recorded_silent o s :
  silent o = true →
  (lastSelected s = None → selected s = ∅) →
  lastSelected (run o s).1 = None → selected (run o s).1 = ∅.
Proof.
  intros Ho Hs. rewrite lastSelected_silent by done. intros Hl.
  destruct o as [|key sel data|key data|key|key data|key|b]; try done; simpl run.
  - simpl. rewrite (Hs Hl). apply remove_rows_of_empty.
  - unfold setMulti, reading. case_bool_decide; [by apply Hs|].
    rewrite seq_state. unfold multiChanged. rewrite seq_state. simpl.
    unfold reading. simpl. destruct b; simpl; [by apply Hs | done].
Qed.

(** X12.  In every reachable state a row with an entry implies a row on record:
    while [lastSelected] is [undefined] the selection is empty.  (So the
    [deselect] of an [undefined] [lastSelected] never finds a row.) *)
Theorem reachable_selection_recorded s :
  reachable s → lastSelected s = None → selected s = ∅.
Proof.
  induction 1 as [m | s o _ IH]; [done|].
  destruct (silent o) eqn:Ho.
  - by apply recorded_silent.
  - eapply recorded_via; [by apply via_run | done].
Qed.

Lemma reachable_selection_recorded_witness :
  selected (run (Remove 1) (run (Deselect 3) (create false)).1).1 = ∅.
Proof.
  apply reachable_selection_recorded; [|reflexivity].
  apply reachable_run, reachable_run, reachable_create.
Defined.

(** ** More on [remove] *)

Lemma dec_exact_insert_inv key (m : gmap Z value) i x :
  m !! i = None → dec_exact key (<[i := x]> m) →
  dec_exact key m ∧ (key < i → js_round (i - 1) = i - 1).
Proof.
  intros Hi Hex. split.
  - intros row [v Hv]. apply Hex. exists v. rewrite lookup_insert_ne; [done|].
    intros ->. congruence.
  - apply Hex. exists x. by rewrite lookup_insert_eq.
Qed.

Lemma remove_rows_of_insert key (m : gmap Z value) i x :
  m !! i = None → i ≠ key → dec_exact key (<[i := x]> m) →
  remove_rows key (<[i := x]> m) (rows_of (<[i := x]> m))
  = <[(if i <? key then i else i - 1) := x]> (remove_rows key m (rows_of m)).
Proof.
  intros Hi Hne Hex. destruct (dec_exact_insert_inv key m i x Hi Hex) as [Hm _].
  apply map_eq. intros r.
  rewrite remove_rows_of_lookup, !lookup_insert, remove_rows_of_lookup by done.
  destruct (Z.ltb_spec r key), (Z.ltb_spec i key);
    repeat case_decide; try done; lia.
Qed.

Lemma remove_rows_of_insert_key key (m : gmap Z value) x :
  m !! key = None → dec_exact key (<[key := x]> m) →
  remove_rows key (<[key := x]> m) (rows_of (<[key := x]> m))
  = remove_rows key m (rows_of m).
Proof.
  intros Hi Hex. destruct (dec_exact_insert_inv key m key x Hi Hex) as [Hm _].
  apply map_eq. intros r. rewrite !remove_rows_of_lookup by done.
  destruct (Z.ltb_spec r key); rewrite lookup_insert_ne; done || lia.
Qed.

Lemma size_remove_rows_of key (m : gmap Z value) :
  dec_exact key m →
  (size (remove_rows key m (rows_of m))
   + match m !! key with Some _ => 1 | None => 0 end = size m)%nat.
Proof.
  induction m as [|i x m Hi IH] using map_ind; intros Hex.
  - by rewrite remove_rows_of_empty, lookup_empty, map_size_empty.
  - destruct (dec_exact_insert_inv key m i x Hi Hex) as [Hm _].
    specialize (IH Hm).
    destruct (decide (i = key)) as [->|Hne].
    + rewrite remove_rows_of_insert_key, lookup_insert_eq by done.
      rewrite map_size_insert_None by done. rewrite Hi in IH. lia.
    + rewrite remove_rows_of_insert, lookup_insert_ne by done.
      rewrite !map_size_insert_None; [lia | done |].
      rewrite remove_rows_of_lookup by done.
      destruct (Z.ltb_spec i key) as [Hlt|Hge].
      * by rewrite (proj2 (Z.ltb_lt i key) Hlt).
      * destruct (Z.ltb_spec (i - 1) key); [lia|].
        by replace (i - 1 + 1) with i by lia.
Qed.

(** X13.  [remove key] on a selection whose rows are safe integers takes
    exactly the entry of [key] out of the count: the selection has one entry
    less when [key] had one, and as many as before when it had none. *)
Theorem remove_size key s :
  rows_safe (selected s) →
  (size (selected (remove key s).1)
   + match selected s !! key with Some _ => 1 | None => 0 end
   = size (selected s))%nat.
Proof. intros Hs. by apply size_remove_rows_of, rows_safe_dec_exact. Qed.

Lemma remove_size_witness :
  (size (selected (remove 2%Z rows_1_2_4).1)
   + match selected rows_1_2_4 !! 2%Z with Some _ => 1 | None => 0 end
   = size (selected rows_1_2_4))%nat.
Proof.
  apply remove_size. apply (bool_decide_unpack _). vm_compute. reflexivity.
Defined.

Lemma dec_exact_remove lo k k' s :
  rows_safe (selected s) → isSafeInteger lo = true → lo ≤ k' →
  dec_exact k' (selected (remove k s).1).
Proof.
  intros Hs Hlo Hle row [v Hv] Hrow.
  rewrite remove_lookup in Hv by by apply rows_safe_dec_exact.
  unfold isSafeInteger in Hlo. apply Z.leb_le in Hlo.
  assert (Hbound : ∀ r, is_Some (selected s !! r) → Z.abs r ≤ 2 ^ 53 - 1).
  { intros r [x Hx]. apply Hs in Hx. by apply Z.leb_le in Hx. }
  apply js_round_exact.
  destruct (row <? k).
  - pose proof (Hbound row (ex_intro _ v Hv)). lia.
  - pose proof (Hbound (row + 1) (ex_intro _ v Hv)). lia.
Qed.

(** X14.  Two removals in either order, on safe integers: with the rows and
    [a] safe and [a ≤ b], taking out row [a] and then what was row [b + 1] is
    taking out row [b + 1] first and then row [a]. *)
Theorem remove_remove a b s :
  rows_safe (selected s) → isSafeInteger a = true → a ≤ b →
  remove b (remove a s).1 = remove a (remove (b + 1) s).1.
Proof.
  intros Hs Ha Hab.
  pose proof (dec_exact_remove a a b s Hs Ha Hab) as H1.
  pose proof (dec_exact_remove a (b + 1) a s Hs Ha (Z.le_refl a)) as H2.
  pose proof (rows_safe_dec_exact a _ Hs) as H3.
  pose proof (rows_safe_dec_exact (b + 1) _ Hs) as H4.
  assert (Hsel : selected (remove b (remove a s).1).1
               = selected (remove a (remove (b + 1) s).1).1).
  { apply map_eq. intros r. rewrite !remove_lookup by done.
    destruct (Z.ltb_spec r b), (Z.ltb_spec r a), (Z.ltb_spec (r + 1) a),
      (Z.ltb_spec r (b + 1)), (Z.ltb_spec (r + 1) (b + 1)); try done; lia. }
  unfold remove, assign, set_selected in *. simpl in *. by rewrite Hsel.
Qed.

Lemma remove_remove_witness :
  remove 2 (remove 1 rows_1_2_4).1 = remove 1 (remove (2 + 1) rows_1_2_4).1.
Proof.
  apply remove_remove; [|reflexivity|lia].
  apply (bool_decide_unpack _). vm_compute. reflexivity.
Defined.

(** X15.  [remove] of a row above every selected row, and so any [remove] on an
    empty selection, changes nothing. *)
Theorem remove_above key s :
  (∀ row, is_Some (selected s !! row) → row < key) →
  remove key s = (s, []).
Proof.
  intros Hrows. unfold remove, assign. f_equal.
  assert (Hex : dec_exact key (selected s)).
  { intros row Hrow Hlt. apply Hrows in Hrow. lia. }
  destruct s as [m sel l]. unfold set_selected. simpl in *. f_equal.
  apply map_eq. intros r. rewrite remove_rows_of_lookup by done.
  destruct (Z.ltb_spec r key); [done|].
  destruct (sel !! (r + 1)) as [v|] eqn:H1.
  { assert (r + 1 < key) by (apply Hrows; by rewrite H1). lia. }
  destruct (sel !! r) as [v|] eqn:H2; [|done].
  assert (r < key) by (apply Hrows; by rewrite H2). lia.
Qed.

Lemma remove_above_witness :
  remove 5 rows_1_2_4 = (rows_1_2_4, []).
Proof.
  apply remove_above. intros row [v Hv]. unfold rows_1_2_4 in Hv. simpl in Hv.
  destruct (decide (row = 1)) as [->|]; [lia|].
  destruct (decide (row = 2)) as [->|]; [lia|].
  destruct (decide (row = 4)) as [->|]; [lia|].
  rewrite !lookup_insert_ne in Hv by done.
  by rewrite lookup_singleton_ne in Hv.
Defined.

End Selection.

(** * Properties of the accessibility mixin *)

Module AccessibilityFacts.
Import Accessibility.

Lemma lookup_setAttribute name v c name' :
  attributes (setAttribute name v c) !! name' =
  if decide (name = name')
  then match v with VNull => None | _ => Some v end
  else attributes c !! name'.
Proof.
  unfold setAttribute. simpl.
  destruct v; rewrite ?lookup_insert, ?lookup_delete;
    repeat case_decide; congruence.
Qed.

Lemma truthy_append (t u : string) :
  truthy (VStr t) = true → truthy (VStr (t +:+ u)) = true.
Proof. by destruct t. Qed.

Lemma truthy_hinted t c :
  truthy (VStr t) = true → truthy (VStr (hinted t c)) = true.
Proof.
  intros Ht. unfold hinted. destruct (truthy (VStr (accessibilityHint c))); [|done].
  by apply truthy_append.
Qed.

Lemma falsy_string (t : string) : truthy (VStr t) = false ↔ t = EmptyString.
Proof. by destruct t. Qed.

(** What [accessibilityLabelChanged] leaves under "aria-label". *)
Lemma aria_label_accessibilityLabelChanged c :
  attributes (accessibilityLabelChanged c) !! "aria-label" =
  if truthy (VStr (accessibilityLabel c))
  then Some (VStr (hinted (accessibilityLabel c) c))
  else if truthy (VStr (content c)) then Some (VStr (hinted (content c) c))
  else if truthy (VStr (accessibilityHint c))
  then Some (VStr (accessibilityHint c)) else None.
Proof.
  unfold accessibilityLabelChanged.
  destruct (truthy (VStr (accessibilityLabel c))); [by rewrite lookup_setAttribute|].
  destruct (truthy (VStr (content c))); [by rewrite lookup_setAttribute|].
  rewrite lookup_setAttribute. simpl.
  by destruct (accessibilityHint c).
Qed.

Lemma aria_label_accessibilityHintChanged c :
  attributes (accessibilityHintChanged c) !! "aria-label" =
  attributes (accessibilityLabelChanged c) !! "aria-label".
Proof.
  rewrite aria_label_accessibilityLabelChanged. unfold accessibilityHintChanged.
  destruct (truthy (VStr (accessibilityLabel c))); [by rewrite lookup_setAttribute|].
  destruct (truthy (VStr (content c))); [by rewrite lookup_setAttribute|].
  rewrite lookup_setAttribute. simpl.
  by destruct (accessibilityHint c).
Qed.

(** X17.  The label hook and the hint hook leave the same "aria-label", and so
    does [contentChanged] when it acts, that is with content and without
    [accessibilityLabel]: the label wins over the content, the content over
    the bare hint. *)
Theorem aria_label_agree sup c :
  attributes (accessibilityHintChanged c) !! "aria-label"
    = attributes (accessibilityLabelChanged c) !! "aria-label" ∧
  (truthy (VStr (content (sup c))) = true →
   truthy (VStr (accessibilityLabel (sup c))) = false →
   attributes (contentChanged sup c) !! "aria-label"
     = attributes (accessibilityLabelChanged (sup c)) !! "aria-label").
Proof.
  split; [apply aria_label_accessibilityHintChanged|].
  intros Hc Hl. rewrite aria_label_accessibilityLabelChanged, Hl, Hc.
  unfold contentChanged. cbv zeta. rewrite Hc, Hl. cbn [andb negb].
  by rewrite lookup_setAttribute.
Qed.

Lemma aria_label_agree_witness :
  attributes (contentChanged id plain_button) !! "aria-label"
  = attributes (accessibilityLabelChanged (id plain_button)) !! "aria-label".
Proof.
  apply (proj2 (aria_label_agree id plain_button)); reflexivity.
Defined.

(** X18.  The hooks never store an empty "aria-label": what they leave there is a
    non-empty string, or nothing, and nothing exactly when label, content
    and hint are all empty. *)
Theorem aria_label_never_empty c :
  (∀ v, attributes (accessibilityLabelChanged c) !! "aria-label" = Some v →
     ∃ t, v = VStr t ∧ t ≠ EmptyString) ∧
  (∀ v, attributes (accessibilityHintChanged c) !! "aria-label" = Some v →
     ∃ t, v = VStr t ∧ t ≠ EmptyString) ∧
  (attributes (accessibilityLabelChanged c) !! "aria-label" = None ↔
     accessibilityLabel c = EmptyString ∧ content c = EmptyString ∧
     accessibilityHint c = EmptyString).
Proof.
  assert (Hne : ∀ t, truthy (VStr t) = true → t ≠ EmptyString).
  { intros t Ht ->. done. }
  assert (H1 : ∀ v,
    attributes (accessibilityLabelChanged c) !! "aria-label" = Some v →
    ∃ t, v = VStr t ∧ t ≠ EmptyString).
  { intros v. rewrite aria_label_accessibilityLabelChanged.
    destruct (truthy (VStr (accessibilityLabel c))) eqn:Hl.
    { intros [= <-]. eexists. split; [done|]. by apply Hne, truthy_hinted. }
    destruct (truthy (VStr (content c))) eqn:Hc.
    { intros [= <-]. eexists. split; [done|]. by apply Hne, truthy_hinted. }
    destruct (truthy (VStr (accessibilityHint c))) eqn:Hh; [|done].
    intros [= <-]. eexists. split; [done|]. by apply Hne. }
  split; [done|]. split.
  { intros v. rewrite aria_label_accessibilityHintChanged. apply H1. }
  rewrite aria_label_accessibilityLabelChanged, <- !falsy_string.
  destruct (truthy (VStr (accessibilityLabel c))),
    (truthy (VStr (content c))), (truthy (VStr (accessibilityHint c)));
    (split; [done | by intros (? & ? & ?)]).
Qed.

Lemma aria_label_never_empty_witness :
  ∃ t, VStr "OK" = VStr t ∧ t ≠ EmptyString.
Proof.
  apply (proj1 (aria_label_never_empty plain_button) (VStr "OK")). reflexivity.
Defined.

(** ** The hooks as functions of the fields *)

Ltac lookup_attributes :=
  repeat (rewrite lookup_insert || rewrite lookup_delete);
  repeat case_decide; congruence.

Ltac attributes_eq := apply map_eq; intros ?; lookup_attributes.

Ltac run_hooks :=
  cbv [accessibilityLabelChanged accessibilityHintChanged
       accessibilityAlertChanged accessibilityLiveChanged initAccessibility
       setAttribute set_attributes hinted content accessibilityLabel
       accessibilityHint accessibilityAlert accessibilityLive attributes
       truthy String.append orb andb negb].

(** X19.  A hook run twice does what it does run once. *)
Theorem hooks_idempotent c :
  accessibilityLabelChanged (accessibilityLabelChanged c)
    = accessibilityLabelChanged c ∧
  accessibilityHintChanged (accessibilityHintChanged c)
    = accessibilityHintChanged c ∧
  accessibilityAlertChanged (accessibilityAlertChanged c)
    = accessibilityAlertChanged c ∧
  accessibilityLiveChanged (accessibilityLiveChanged c)
    = accessibilityLiveChanged c.
Proof.
  destruct c as [ct lb ht al lv attrs]. split; [|split; [|split]].
  - destruct lb, ct, ht; run_hooks; f_equal; attributes_eq.
  - destruct lb, ct, ht; run_hooks; f_equal; attributes_eq.
  - destruct al; run_hooks; f_equal; attributes_eq.
  - destruct lv; run_hooks; f_equal; attributes_eq.
Qed.

(** X20.  Each hook writes its own attributes and no other: the label and hint
    hooks "tabindex" and "aria-label", the alert hook "role", the live hook
    "aria-live"; [initAccessibility] writes none but these four. *)
Theorem hooks_frame name c :
  (name ≠ "tabindex" → name ≠ "aria-label" →
   attributes (accessibilityLabelChanged c) !! name = attributes c !! name ∧
   attributes (accessibilityHintChanged c) !! name = attributes c !! name) ∧
  (name ≠ "role" →
   attributes (accessibilityAlertChanged c) !! name = attributes c !! name) ∧
  (name ≠ "aria-live" →
   attributes (accessibilityLiveChanged c) !! name = attributes c !! name) ∧
  (name ≠ "tabindex" → name ≠ "aria-label" → name ≠ "role" →
   name ≠ "aria-live" →
   attributes (initAccessibility c) !! name = attributes c !! name).
Proof.
  destruct c as [ct lb ht al lv attrs]. split; [|split; [|split]].
  - intros Ht Ha. split; destruct lb, ct, ht; run_hooks;
      lookup_attributes.
  - intros Hr. destruct al; run_hooks;
      lookup_attributes.
  - intros Hl. destruct lv; run_hooks;
      lookup_attributes.
  - intros Ht Ha Hr Hl. unfold initAccessibility.
    destruct lb, ht, ct, al, lv; run_hooks;
      lookup_attributes.
Qed.

Lemma hooks_frame_witness :
  attributes (initAccessibility plain_button) !! "id"
  = attributes plain_button !! "id".
Proof.
  apply (proj2 (proj2 (proj2 (hooks_frame "id" plain_button)))); discriminate.
Defined.

(** X21.  [initAccessibility] on a new control: "aria-label" is written when a
    label or a hint is given, and is then what the label hook computes;
    content alone does not write it.  "role" becomes "alert" and "aria-live"
    "assertive" when the flag is set, and are left as they are otherwise. *)
Theorem initAccessibility_attributes c :
  attributes (initAccessibility c) !! "aria-label" =
    (if truthy (VStr (accessibilityLabel c)) || truthy (VStr (accessibilityHint c))
     then attributes (accessibilityLabelChanged c) !! "aria-label"
     else attributes c !! "aria-label") ∧
  attributes (initAccessibility c) !! "role" =
    (if accessibilityAlert c then Some (VStr "alert")
     else attributes c !! "role") ∧
  attributes (initAccessibility c) !! "aria-live" =
    (if accessibilityLive c then Some (VStr "assertive")
     else attributes c !! "aria-live").
Proof.
  destruct c as [ct lb ht al lv attrs]. unfold initAccessibility.
  split; [|split]; destruct lb, ht, ct, al, lv; run_hooks;
    lookup_attributes.
Qed.

(** ** The setters *)

(** X22.  Switching the alert on replaces the role the control had, and switching
    it off again clears the role: the earlier role does not come back.  The
    live flag writes and clears "aria-live" the same way. *)
Theorem alert_replaces_role c :
  (accessibilityAlert c = false →
   attributes (setAccessibilityAlert true c) !! "role" = Some (VStr "alert")) ∧
  attributes (setAccessibilityAlert false (setAccessibilityAlert true c)) !! "role"
    = None ∧
  (accessibilityLive c = false →
   attributes (setAccessibilityLive true c) !! "aria-live"
     = Some (VStr "assertive")) ∧
  attributes (setAccessibilityLive false (setAccessibilityLive true c)) !! "aria-live"
    = None.
Proof.
  destruct c as [ct lb ht al lv attrs]. simpl.
  split; [|split; [|split]].
  - intros ->. unfold setAccessibilityAlert. simpl. run_hooks.
    by rewrite lookup_insert_eq.
  - unfold setAccessibilityAlert. destruct al; simpl; run_hooks;
      by rewrite lookup_delete_eq.
  - intros ->. unfold setAccessibilityLive. simpl. run_hooks.
    by rewrite lookup_insert_eq.
  - unfold setAccessibilityLive. destruct lv; simpl; run_hooks;
      by rewrite lookup_delete_eq.
Qed.

Lemma alert_replaces_role_witness :
  attributes (setAccessibilityAlert true plain_button) !! "role"
  = Some (VStr "alert").
Proof. apply (proj1 (alert_replaces_role plain_button)). reflexivity. Defined.

(** X23.  [setAccessibilityLabel]: the getter returns what was set; setting the
    label it has leaves the control as it is; a new non-empty label becomes
    the "aria-label" (with the hint appended, if any) and makes the control
    focusable; clearing the label on a control with content puts the content
    in its place. *)
Theorem setAccessibilityLabel_effect l c :
  getAccessibilityLabel (setAccessibilityLabel l c) = l ∧
  (accessibilityLabel c = l → setAccessibilityLabel l c = c) ∧
  (accessibilityLabel c ≠ l → truthy (VStr l) = true →
   attributes (setAccessibilityLabel l c) !! "aria-label"
     = Some (VStr (hinted l c)) ∧
   attributes (setAccessibilityLabel l c) !! "tabindex" = Some (VNum 0)) ∧
  (accessibilityLabel c ≠ l → l = EmptyString →
   truthy (VStr (content c)) = true →
   attributes (setAccessibilityLabel l c) !! "aria-label"
     = Some (VStr (hinted (content c) c))).
Proof.
  destruct c as [ct lb ht al lv attrs].
  unfold getAccessibilityLabel, setAccessibilityLabel. cbv zeta.
  cbn [accessibilityLabel content].
  split; [|split; [|split]].
  - case_bool_decide; [|done]. unfold notify. by destruct l, ct, ht.
  - intros ->. by rewrite bool_decide_eq_false_2 by (by intros []).
  - intros Hne Hl. rewrite bool_decide_eq_true_2 by done.
    unfold notify, set_accessibilityLabel. destruct l; [done|].
    split; run_hooks; lookup_attributes.
  - intros Hne -> Hc. rewrite bool_decide_eq_true_2 by done.
    unfold notify, set_accessibilityLabel. destruct ct; [done|].
    run_hooks; lookup_attributes.
Qed.

Lemma setAccessibilityLabel_effect_witness :
  attributes (setAccessibilityLabel "Confirm" plain_button) !! "aria-label"
    = Some (VStr (hinted "Confirm" plain_button)) ∧
  attributes (setAccessibilityLabel "Confirm" plain_button) !! "tabindex"
    = Some (VNum 0).
Proof.
  apply (proj1 (proj2 (proj2
    (setAccessibilityLabel_effect "Confirm" plain_button)))).
  - discriminate.
  - reflexivity.
Defined.

(** X25.  [setAccessibilityHint] with a new hint: on a control with a label the
    "aria-label" becomes the label, a space and the hint, and "tabindex" is
    not touched; clearing the hint of a control without label and content
    clears "aria-label" and "tabindex". *)
Theorem setAccessibilityHint_effect h c :
  accessibilityHint c ≠ h →
  (truthy (VStr (accessibilityLabel c)) = true → truthy (VStr h) = true →
   attributes (setAccessibilityHint h c) !! "aria-label"
     = Some (VStr (accessibilityLabel c +:+ " " +:+ h)) ∧
   attributes (setAccessibilityHint h c) !! "tabindex"
     = attributes c !! "tabindex") ∧
  (h = EmptyString → accessibilityLabel c = EmptyString →
   content c = EmptyString →
   attributes (setAccessibilityHint h c) !! "aria-label" = None ∧
   attributes (setAccessibilityHint h c) !! "tabindex" = None).
Proof.
  destruct c as [ct lb ht al lv attrs].
  unfold setAccessibilityHint. cbv zeta. cbn [accessibilityHint accessibilityLabel content].
  intros Hne. rewrite bool_decide_eq_true_2 by done.
  unfold notify, set_accessibilityHint. split.
  - intros Hl Hh. destruct lb; [done|]. destruct h; [done|].
    split; run_hooks; lookup_attributes.
  - intros -> -> ->. split; run_hooks; lookup_attributes.
Qed.

Lemma setAccessibilityHint_effect_witness :
  attributes (setAccessibilityHint EmptyString
    (Control EmptyString EmptyString "press" false false
       {[ "aria-label" := VStr "press"; "tabindex" := VNum 0 ]}))
    !! "aria-label" = None ∧
  attributes (setAccessibilityHint EmptyString
    (Control EmptyString EmptyString "press" false false
       {[ "aria-label" := VStr "press"; "tabindex" := VNum 0 ]}))
    !! "tabindex" = None.
Proof.
  apply setAccessibilityHint_effect; [discriminate | reflexivity..].
Defined.

(** X24.  [contentChanged] adds to what the inherited hook leaves and never takes
    an attribute away; with an [accessibilityLabel], or without content, it
    adds nothing, so a label taken from earlier content stays when the
    content is emptied. *)
Theorem contentChanged_keeps sup c :
  (∀ name, is_Some (attributes (sup c) !! name) →
     is_Some (attributes (contentChanged sup c) !! name)) ∧
  (truthy (VStr (accessibilityLabel (sup c))) = true ∨
   content (sup c) = EmptyString →
   contentChanged sup c = sup c).
Proof.
  unfold contentChanged. cbv zeta. destruct (sup c) as [ct lb ht al lv attrs].
  simpl. split.
  - intros name Hname. destruct ct, lb; simpl; try done; run_hooks;
      rewrite !lookup_insert; by repeat case_decide.
  - intros [Hl | ->]; [|done]. destruct lb; [done|]. by destruct ct.
Qed.

Lemma contentChanged_keeps_witness :
  contentChanged (set_accessibilityLabel "Confirm") plain_button
  = set_accessibilityLabel "Confirm" plain_button.
Proof.
  apply (proj2 (contentChanged_keeps (set_accessibilityLabel "Confirm")
    plain_button)).
  left. reflexivity.
Defined.

End AccessibilityFacts.
